(** * httpnpipe: an HTTP transport over named pipes

    Shallow embedding of [httpnpipe.go] (package [httpnpipe]) and the
    properties of its two methods, [Transport.RegisterTargetService] and
    [Transport.RoundTrip].

    The methods are written in a small monad [Go] that threads the
    [Transport] the receiver points to, records every call that leaves the
    package (mutex operations, the clock, the pipe connection, the HTTP
    library) in a log, and has a second outcome for a Go [panic].  The
    collaborators are black boxes: a [World] chooses the result of each call
    from the calls made so far. *)

From Stdlib Require Import ZArith String List.
From stdpp Require Import base option strings list gmap sorting.

Local Open Scope Z_scope.

(** ** The Go values the package handles *)

(** [error]: the values built by [errors.New] inside the package, and the
    values the collaborators hand back, which the package never inspects. *)
Inductive error : Type :=
| errorString (text : string)
| foreignError (origin : string) (text : string).

Module errors.
Definition New (text : string) : error := errorString text.
End errors.

(** The text of an error, as its [Error()] method gives it. *)
Definition Error (e : error) : string :=
  match e with
  | errorString text => text
  | foreignError _ text => text
  end.

(** [time.Duration] is an [int64] count of nanoseconds and [time.Time] an
    instant; [Time.Add] moves an instant by a duration. *)
Module time.
Definition Duration : Type := Z.
Definition Time : Type := Z.
Definition Add (t : Time) (d : Duration) : Time := t + d.
End time.

(** [net.Conn]: a handle on an open pipe connection. *)
Definition Conn : Type := N.

Module url.
Record URL : Type := mkURL {
  Scheme : string;
  Host : string;
  Path : string
}.
End url.

Module http.
(** [URL] is a pointer in Go and may be nil.  The remaining fields of a
    request are only read by the HTTP library. *)
Record Request : Type := mkRequest {
  Method : string;
  URL : option url.URL;
  Host : string
}.

Record Response : Type := mkResponse {
  StatusCode : Z;
  Body : string
}.
End http.

Module bufio.
Record Reader : Type := NewReader { rd : Conn }.
End bufio.

(** A Go [map[string]string] value: [None] is the nil map. *)
Abbreviation gomap := (option (gmap string string)).

(** [v, ok := m[k]]: the zero value and [false] when [k] is absent, also
    on the nil map. *)
Definition map_index (m : gomap) (k : string) : string * bool :=
  match m with
  | None => (EmptyString, false)
  | Some g =>
      match g !! k with
      | Some v => (v, true)
      | None => (EmptyString, false)
      end
  end.

(** ** The package *)

(** [const Scheme = "http+npipe"] *)
Definition Scheme : string := "http+npipe".

(** [type Transport struct].  The mutex has no field here: its two
    operations are calls recorded in the log. *)
Record Transport : Type := mkTransport {
  DialTimeout : time.Duration;
  RequestTimeout : time.Duration;
  ResponseHeaderTimeout : time.Duration;
  pipeMapping : gomap
}.

Definition with_pipeMapping (m : gomap) (t : Transport) : Transport :=
  {| DialTimeout := DialTimeout t;
     RequestTimeout := RequestTimeout t;
     ResponseHeaderTimeout := ResponseHeaderTimeout t;
     pipeMapping := m |}.

(** The calls that leave the package. *)
Inductive Call : Type :=
| mutex_Lock
| mutex_Unlock
| sockets_DialPipe (addr : string) (timeout : time.Duration)
| time_Now
| SetWriteDeadline (c : Conn) (t : time.Time)
| Request_Write (req : http.Request) (c : Conn)
| SetReadDeadline (c : Conn) (t : time.Time)
| http_ReadResponse (r : bufio.Reader) (req : http.Request).

(** What each call returns.  A Go pair [(T, error)] of which exactly one
    side is to be used is a sum; [http.ReadResponse] keeps both sides
    because [RoundTrip] passes both on. *)
Definition Ans (c : Call) : Type :=
  match c with
  | mutex_Lock | mutex_Unlock => unit
  | sockets_DialPipe _ _ => (Conn + error)%type
  | time_Now => time.Time
  | SetWriteDeadline _ _ | SetReadDeadline _ _ => option error
  | Request_Write _ _ => option error
  | http_ReadResponse _ _ => (option http.Response * option error)%type
  end.

(** The part of the calls that is input or output on a connection. *)
Definition is_io (c : Call) : bool :=
  match c with
  | mutex_Lock | mutex_Unlock | time_Now => false
  | _ => true
  end.

Definition is_dial (c : Call) : bool :=
  match c with sockets_DialPipe _ _ => true | _ => false end.

Definition is_write (c : Call) : bool :=
  match c with Request_Write _ _ => true | _ => false end.

Definition is_read (c : Call) : bool :=
  match c with http_ReadResponse _ _ => true | _ => false end.

Definition World : Type := list Call → ∀ c : Call, Ans c.

Record State : Type := mkState {
  tr : Transport;
  log : list Call
}.

Inductive Outcome (A : Type) : Type :=
| Done (a : A) (s : State)
| Panic (v : string) (s : State).
Arguments Done {A} a s.
Arguments Panic {A} v s.

Definition final {A} (o : Outcome A) : State :=
  match o with
  | Done _ s => s
  | Panic _ s => s
  end.

Definition Go (A : Type) : Type := World → State → Outcome A.

Definition ret {A} (a : A) : Go A := λ _ s, Done a s.

Definition bind {A B} (m : Go A) (k : A → Go B) : Go B :=
  λ w s,
    match m w s with
    | Done a s' => k a w s'
    | Panic v s' => Panic v s'
    end.

#[global] Instance Go_ret : MRet Go := @ret.
#[global] Instance Go_bind : MBind Go := λ A B k m, bind m k.

(** [panic(v)] *)
Definition panic {A} (v : string) : Go A := λ _ s, Panic v s.

(** [defer d] at the head of [body]: [d] runs when [body] returns and when
    it panics, and a panic of [body] goes on afterwards. *)
Definition defer {A} (d : Go unit) (body : Go A) : Go A :=
  λ w s,
    match body w s with
    | Done a s' =>
        match d w s' with
        | Done _ s'' => Done a s''
        | Panic v s'' => Panic v s''
        end
    | Panic v s' =>
        match d w s' with
        | Done _ s'' => Panic v s''
        | Panic v' s'' => Panic v' s''
        end
    end.

(** Reading a field of the receiver. *)
Definition field {A} (f : Transport → A) : Go A := λ _ s, Done (f (tr s)) s.

(** [transport.pipeMapping = m] *)
Definition set_pipeMapping (m : gomap) : Go unit :=
  λ _ s, Done tt {| tr := with_pipeMapping m (tr s); log := log s |}.

(** [transport.pipeMapping[k] = v]; on the nil map the Go runtime
    panics. *)
Definition map_assign (k v : string) : Go unit :=
  m ← field pipeMapping;
  match m with
  | None => panic "assignment to entry in nil map"
  | Some g => set_pipeMapping (Some (<[k:=v]> g))
  end.

(** A call to a collaborator: the world answers from the calls so far. *)
Definition call (c : Call) : Go (Ans c) :=
  λ w s, Done (w (log s) c) {| tr := tr s; log := log s ++ [c] |}.

(** [Transport.RegisterTargetService] *)
Definition RegisterTargetService (serviceName pipeName : string) : Go unit :=
  call mutex_Lock;;
  defer (call mutex_Unlock) (
    m ← field pipeMapping;
    (if m is None then set_pipeMapping (Some ∅) else mret tt);;
    m ← field pipeMapping;
    let '(_, exists_) := map_index m serviceName in
    if exists_ then
      panic ("service " +:+ serviceName +:+ " already registered")
    else
      map_assign serviceName pipeName).

(** [Transport.RoundTrip]: the request in, a response pointer (which may
    be nil) and an error out.  [req] itself is taken to be non-nil, as the
    [http.RoundTripper] contract has it. *)
Definition RoundTrip (req : http.Request) : Go (option http.Response * option error) :=
  match http.URL req with
  | None => mret (None, Some (errors.New "http+npipe: nil Request.URL"))
  | Some u =>
      if decide (url.Scheme u ≠ Scheme) then
        mret (None, Some (errors.New ("unsupported protocol scheme: " +:+ url.Scheme u)))
      else if decide (url.Host u = "") then
        mret (None, Some (errors.New "http+npipe: no Host in request URL"))
      else
        call mutex_Lock;;
        m ← field pipeMapping;
        let '(pipeName, ok) := map_index m (url.Host u) in
        call mutex_Unlock;;
        if negb ok then
          mret (None, Some (errors.New ("unknown service: " +:+ http.Host req)))
        else
          dialTimeout ← field DialTimeout;
          dialed ← call (sockets_DialPipe pipeName dialTimeout);
          match dialed with
          | inr err => mret (None, Some err)
          | inl c =>
              let r := bufio.NewReader c in
              requestTimeout ← field RequestTimeout;
              (if decide (requestTimeout > 0) then
                 now ← call time_Now;
                 call (SetWriteDeadline c (time.Add now requestTimeout));;
                 mret tt
               else mret tt);;
              werr ← call (Request_Write req c);
              match werr with
              | Some err => mret (None, Some err)
              | None =>
                  responseHeaderTimeout ← field ResponseHeaderTimeout;
                  (if decide (responseHeaderTimeout > 0) then
                     now ← call time_Now;
                     call (SetReadDeadline c (time.Add now responseHeaderTimeout));;
                     mret tt
                   else mret tt);;
                  call (http_ReadResponse r req)
              end
          end
  end.

(** ** Running a method *)

(** The state a call starts from when nothing has been logged yet. *)
Definition start (t : Transport) : State := {| tr := t; log := [] |}.

(** The calls a run added to the log of the state it started from. *)
Definition added {A} (s : State) (o : Outcome A) : list Call :=
  drop (length (log s)) (log (final o)).

(** [a] is called, and later [b]. *)
Definition called_before (a b : Call) (l : list Call) : Prop :=
  ∃ l1 l2 l3, l = l1 ++ a :: l2 ++ b :: l3.

(** A world whose answers do not depend on the calls so far: the clock
    reads [now], the dial gives [dialed], the write gives [written], the
    response parser gives [parsed], and setting a deadline succeeds. *)
Definition scripted (now : time.Time) (dialed : Conn + error)
    (written : option error)
    (parsed : option http.Response * option error) : World :=
  λ _ c,
    match c return Ans c with
    | mutex_Lock | mutex_Unlock => tt
    | sockets_DialPipe _ _ => dialed
    | time_Now => now
    | SetWriteDeadline _ _ | SetReadDeadline _ _ => None
    | Request_Write _ _ => written
    | http_ReadResponse _ _ => parsed
    end.

(** The operations a client can perform on a [Transport]. *)
Inductive Op : Type :=
| OpRegister (serviceName pipeName : string)
| OpRoundTrip (req : http.Request).

(** The state in which an operation leaves the transport and the log,
    whether it returned or panicked. *)
Definition perform (op : Op) (w : World) (s : State) : State :=
  match op with
  | OpRegister serviceName pipeName =>
      final (RegisterTargetService serviceName pipeName w s)
  | OpRoundTrip req => final (RoundTrip req w s)
  end.

(** Sample values. *)
Definition docker_url : url.URL :=
  {| url.Scheme := "http+npipe"; url.Host := "docker"; url.Path := "/version" |}.

Definition docker_req : http.Request :=
  {| http.Method := "GET"; http.URL := Some docker_url; http.Host := "docker" |}.

Definition zero_Transport : Transport :=
  {| DialTimeout := 0; RequestTimeout := 0; ResponseHeaderTimeout := 0;
     pipeMapping := None |}.

Definition docker_Transport (requestTimeout responseHeaderTimeout : time.Duration) : Transport :=
  {| DialTimeout := 0; RequestTimeout := requestTimeout;
     ResponseHeaderTimeout := responseHeaderTimeout;
     pipeMapping := Some {[ "docker" := "//./pipe/docker_engine" ]} |}.

Definition ok_response : http.Response :=
  {| http.StatusCode := 200; http.Body := "OK" |}.

Definition happy : World := scripted 1000 (inl 7%N) None (Some ok_response, None).

Definition compose_Transport : Transport :=
  {| DialTimeout := 0; RequestTimeout := 2; ResponseHeaderTimeout := 3;
     pipeMapping := Some {[ "compose" := "//./pipe/compose" ]} |}.

Definition compose_req : http.Request :=
  {| http.Method := "GET";
     http.URL := Some {| url.Scheme := "http+npipe"; url.Host := "docker";
                         url.Path := "/" |};
     http.Host := "" |}.

Definition pipe_busy : error := foreignError "sockets" "open //./pipe/docker_engine: all pipe instances are busy".

Definition write_timeout : error := foreignError "net" "write pipe: i/o timeout".

(** What a run returned, if it returned. *)
Definition returned {A} (o : Outcome A) : option A :=
  match o with
  | Done a _ => Some a
  | Panic _ _ => None
  end.

(** The calls of lines 101 to 103 on connection [c], made when the log is
    [l]: the clock is read and the write deadline set, or nothing. *)
Definition write_deadline (w : World) (t : Transport) (c : Conn) (l : list Call) : list Call :=
  if decide (RequestTimeout t > 0) then
    [time_Now; SetWriteDeadline c (time.Add (w l time_Now) (RequestTimeout t))]
  else [].

(** The calls of lines 109 to 111, likewise. *)
Definition read_deadline (w : World) (t : Transport) (c : Conn) (l : list Call) : list Call :=
  if decide (ResponseHeaderTimeout t > 0) then
    [time_Now; SetReadDeadline c (time.Add (w l time_Now) (ResponseHeaderTimeout t))]
  else [].



(** A sequence of operations, one after the other, in one world. *)
Fixpoint perform_all (ops : list Op) (w : World) (s : State) : State :=
  match ops with
  | [] => s
  | op :: ops' => perform_all ops' w (perform op w s)
  end.

(** ** Reading a log *)

Definition is_clock (c : Call) : bool :=
  match c with time_Now => true | _ => false end.

Definition is_deadline (c : Call) : bool :=
  match c with
  | SetWriteDeadline _ _ | SetReadDeadline _ _ => true
  | _ => false
  end.

(** The place of a call in the order of the statements of the two
    methods.  The clock is read in two places and is left out of that
    order (see [is_clock]). *)
Definition phase (c : Call) : nat :=
  match c with
  | mutex_Lock => 0
  | mutex_Unlock => 1
  | sockets_DialPipe _ _ => 2
  | SetWriteDeadline _ _ => 3
  | Request_Write _ _ => 4
  | SetReadDeadline _ _ => 5
  | http_ReadResponse _ _ => 6
  | time_Now => 0
  end%nat.

(** The mutex after the calls of [l], starting held or free: [None] when
    [l] locks a mutex that is held (a [sync.Mutex] is not reentrant),
    unlocks one that is free (a fatal error of the Go runtime), or makes
    any other call while the mutex is held. *)
Fixpoint mutex_after (held : bool) (l : list Call) : option bool :=
  match l with
  | [] => Some held
  | mutex_Lock :: l' => if held then None else mutex_after true l'
  | mutex_Unlock :: l' => if held then mutex_after false l' else None
  | _ :: l' => if held then None else mutex_after false l'
  end.

(** Every clock reading in [l] is immediately followed by the setting of
    a deadline. *)
Definition clock_sets_deadline (l : list Call) : Prop :=
  ∀ pre post,
    l = pre ++ time_Now :: post →
    ∃ c post', post = c :: post' ∧ is_deadline c = true.

(** The world [w] with every attempt to set a deadline failing with
    [err]. *)
Definition deadlines_fail (err : error) (w : World) : World :=
  λ l c,
    match c as c' return Ans c' with
    | mutex_Lock => w l mutex_Lock
    | mutex_Unlock => w l mutex_Unlock
    | sockets_DialPipe addr timeout => w l (sockets_DialPipe addr timeout)
    | time_Now => w l time_Now
    | SetWriteDeadline _ _ => Some err
    | Request_Write req c0 => w l (Request_Write req c0)
    | SetReadDeadline _ _ => Some err
    | http_ReadResponse r req => w l (http_ReadResponse r req)
    end.

Definition closed_pipe : error := foreignError "net" "use of closed network connection".


(** ** Properties *)

Ltac go_unfold :=
  unfold mbind, mret, Go_bind, Go_ret, bind, ret, defer, field, call, panic,
    set_pipeMapping, map_assign in *.

(** Case analysis of a membership in a log that is written out. *)
Ltac log_inv H :=
  repeat (rewrite elem_of_cons in H; destruct H as [H|H];
          [try discriminate H|]);
  try (apply elem_of_nil in H; contradiction).

(** *** Map lookups *)

Lemma map_index_absent (m : gomap) (k : string) :
  snd (map_index m k) = false → map_index m k = (EmptyString, false).
Proof.
  unfold map_index. destruct m as [g|]; [|reflexivity].
  destruct (g !! k); [discriminate|reflexivity].
Qed.

Lemma map_index_Some (g : gmap string string) (k : string) :
  map_index (Some g) k =
    match g !! k with Some v => (v, true) | None => (EmptyString, false) end.
Proof. reflexivity. Qed.

Lemma map_index_insert (m : gomap) (k v : string) :
  map_index (Some (<[k:=v]> (default ∅ m))) k = (v, true).
Proof. rewrite map_index_Some, lookup_insert_eq. reflexivity. Qed.

Lemma map_index_insert_ne (m : gomap) (k k' v v' : string) :
  k ≠ k' →
  map_index m k' = (v', true) →
  map_index (Some (<[k:=v]> (default ∅ m))) k' = (v', true).
Proof.
  intros Hne. rewrite map_index_Some, lookup_insert_ne by exact Hne.
  destruct m as [g|]; simpl; [|discriminate].
  destruct (g !! k'); [tauto|discriminate].
Qed.

Lemma append_inj_prefix (p a b : string) : p +:+ a = p +:+ b → a = b.
Proof.
  induction p as [|ch p IH]; simpl; [tauto|].
  intros [= H]. apply IH, H.
Qed.

(** *** The log *)

Lemma added_Done {A} (s : State) (a : A) (t : Transport) (l : list Call) :
  added s (Done a {| tr := t; log := log s ++ l |}) = l.
Proof. unfold added. simpl. apply drop_app_length. Qed.

Lemma added_same {A} (s : State) (a : A) : added s (Done a s) = [].
Proof. unfold added. simpl. apply drop_all. Qed.

(** *** RegisterTargetService, path by path *)

Lemma RegisterTargetService_run w s serviceName pipeName :
  RegisterTargetService serviceName pipeName w s =
    if snd (map_index (pipeMapping (tr s)) serviceName) then
      Panic ("service " +:+ serviceName +:+ " already registered")
        {| tr := tr s; log := log s ++ [mutex_Lock; mutex_Unlock] |}
    else
      Done tt
        {| tr := with_pipeMapping
                   (Some (<[serviceName:=pipeName]> (default ∅ (pipeMapping (tr s)))))
                   (tr s);
           log := log s ++ [mutex_Lock; mutex_Unlock] |}.
Proof.
  unfold RegisterTargetService, map_index. go_unfold.
  destruct s as [t l]; destruct t as [dt rt rht [g|]]; simpl.
  - destruct (g !! serviceName) as [v|]; simpl; rewrite <- app_assoc; reflexivity.
  - rewrite lookup_empty. simpl. rewrite <- app_assoc. reflexivity.
Qed.

(** *** RoundTrip, path by path *)

Lemma RoundTrip_nil_URL req w s :
  http.URL req = None →
  RoundTrip req w s =
    Done (None, Some (errors.New "http+npipe: nil Request.URL")) s.
Proof. intros HU. unfold RoundTrip. rewrite HU. reflexivity. Qed.

Lemma RoundTrip_other_scheme req u w s :
  http.URL req = Some u → url.Scheme u ≠ Scheme →
  RoundTrip req w s =
    Done (None, Some (errors.New ("unsupported protocol scheme: " +:+ url.Scheme u))) s.
Proof.
  intros HU HS. unfold RoundTrip. rewrite HU.
  rewrite decide_True by exact HS. reflexivity.
Qed.

Lemma RoundTrip_no_host req u w s :
  http.URL req = Some u → url.Scheme u = Scheme → url.Host u = "" →
  RoundTrip req w s =
    Done (None, Some (errors.New "http+npipe: no Host in request URL")) s.
Proof.
  intros HU HS HH. unfold RoundTrip. rewrite HU.
  rewrite decide_False by (intros E; apply E, HS).
  rewrite decide_True by exact HH. reflexivity.
Qed.

Lemma RoundTrip_unknown req u w s :
  http.URL req = Some u → url.Scheme u = Scheme → url.Host u ≠ "" →
  snd (map_index (pipeMapping (tr s)) (url.Host u)) = false →
  RoundTrip req w s =
    Done (None, Some (errors.New ("unknown service: " +:+ http.Host req)))
      {| tr := tr s; log := log s ++ [mutex_Lock; mutex_Unlock] |}.
Proof.
  intros HU HS HH HM. apply map_index_absent in HM.
  unfold RoundTrip. rewrite HU.
  rewrite decide_False by (intros E; apply E, HS).
  rewrite decide_False by exact HH.
  go_unfold. destruct s as [t l]. simpl in *. rewrite HM. simpl.
  rewrite <- app_assoc. reflexivity.
Qed.

Lemma RoundTrip_exchange req u pipeName w s :
  http.URL req = Some u → url.Scheme u = Scheme → url.Host u ≠ "" →
  map_index (pipeMapping (tr s)) (url.Host u) = (pipeName, true) →
  RoundTrip req w s =
    let dial := sockets_DialPipe pipeName (DialTimeout (tr s)) in
    let l0 := log s ++ [mutex_Lock; mutex_Unlock] in
    let l1 := log s ++ [mutex_Lock; mutex_Unlock; dial] in
    match w l0 dial with
    | inr err => Done (None, Some err) {| tr := tr s; log := l1 |}
    | inl c =>
        let l2 := l1 ++ write_deadline w (tr s) c l1 in
        let l3 := l2 ++ [Request_Write req c] in
        match w l2 (Request_Write req c) with
        | Some err => Done (None, Some err) {| tr := tr s; log := l3 |}
        | None =>
            let l4 := l3 ++ read_deadline w (tr s) c l3 in
            let parse := http_ReadResponse (bufio.NewReader c) req in
            Done (w l4 parse) {| tr := tr s; log := l4 ++ [parse] |}
        end
    end.
Proof.
  intros HU HS HH HM. unfold RoundTrip. rewrite HU.
  rewrite decide_False by (intros E; apply E, HS).
  rewrite decide_False by exact HH.
  go_unfold. destruct s as [t l]. simpl in *. rewrite HM. simpl.
  rewrite <- (app_assoc l [mutex_Lock] [mutex_Unlock]). simpl.
  destruct (w (l ++ [mutex_Lock; mutex_Unlock]) _) as [c|err];
    [|rewrite <- app_assoc; reflexivity].
  unfold write_deadline, read_deadline. cbn [tr log].
  repeat case_decide; simpl; rewrite <- ?app_assoc; simpl.
  all: destruct (w _ (Request_Write req c)); [reflexivity|].
  all: cbn [tr log]; repeat case_decide; try contradiction.
  all: simpl; rewrite <- ?app_assoc; reflexivity.
Qed.

(** Every request takes one of the five paths. *)
Lemma request_paths (req : http.Request) (t : Transport) :
  http.URL req = None
  ∨ (∃ u, http.URL req = Some u ∧ url.Scheme u ≠ Scheme)
  ∨ (∃ u, http.URL req = Some u ∧ url.Scheme u = Scheme ∧ url.Host u = "")
  ∨ (∃ u, http.URL req = Some u ∧ url.Scheme u = Scheme ∧ url.Host u ≠ ""
        ∧ snd (map_index (pipeMapping t) (url.Host u)) = false)
  ∨ (∃ u pipeName, http.URL req = Some u ∧ url.Scheme u = Scheme
        ∧ url.Host u ≠ ""
        ∧ map_index (pipeMapping t) (url.Host u) = (pipeName, true)).
Proof.
  destruct (http.URL req) as [u|]; [|left; reflexivity]. right.
  destruct (decide (url.Scheme u = Scheme)) as [HS|HS]; [|left; eauto]. right.
  destruct (decide (url.Host u = "")) as [HH|HH]; [left; eauto|]. right.
  destruct (map_index (pipeMapping t) (url.Host u)) as [p [|]] eqn:HM.
  - right. exists u, p. auto.
  - left. exists u. rewrite HM. auto.
Qed.

(** *** The claims *)

(** C1. [RegisterTargetService serviceName pipeName] on a transport whose
    registry already has an entry for [serviceName] panics (it does not
    return), with the transport, and so the entry of that name, as it was;
    on a transport with no entry for [serviceName] it returns normally,
    with no result value, and the registry is the old one with
    [serviceName] mapped to [pipeName]. *)
Theorem RegisterTargetService_panics_or_inserts :
  ∀ (w : World) (s : State) (serviceName pipeName : string),
    (snd (map_index (pipeMapping (tr s)) serviceName) = true →
       ∃ s', RegisterTargetService serviceName pipeName w s =
               Panic ("service " +:+ serviceName +:+ " already registered") s'
             ∧ tr s' = tr s
             ∧ map_index (pipeMapping (tr s')) serviceName =
                 map_index (pipeMapping (tr s)) serviceName)
    ∧ (snd (map_index (pipeMapping (tr s)) serviceName) = false →
       ∃ s', RegisterTargetService serviceName pipeName w s = Done tt s'
             ∧ pipeMapping (tr s') =
                 Some (<[serviceName:=pipeName]> (default ∅ (pipeMapping (tr s))))
             ∧ map_index (pipeMapping (tr s')) serviceName = (pipeName, true)).
Proof.
  intros w s serviceName pipeName.
  rewrite RegisterTargetService_run. split; intros ->.
  - eexists. split; [reflexivity|]. split; reflexivity.
  - eexists. split; [reflexivity|]. split; [reflexivity|].
    apply map_index_insert.
Qed.

Lemma RegisterTargetService_panics_or_inserts_witness :
  (∃ s', RegisterTargetService "docker" "//./pipe/other" happy
           (start (docker_Transport 0 0)) =
           Panic "service docker already registered" s'
         ∧ tr s' = docker_Transport 0 0
         ∧ map_index (pipeMapping (tr s')) "docker" =
             ("//./pipe/docker_engine", true))
  ∧ (∃ s', RegisterTargetService "docker" "//./pipe/docker_engine" happy
             (start zero_Transport) = Done tt s'
           ∧ pipeMapping (tr s') =
               Some (<["docker":="//./pipe/docker_engine"]> ∅)
           ∧ map_index (pipeMapping (tr s')) "docker" =
               ("//./pipe/docker_engine", true)).
Proof.
  split.
  - apply (proj1 (RegisterTargetService_panics_or_inserts happy
                    (start (docker_Transport 0 0)) "docker" "//./pipe/other")).
    reflexivity.
  - apply (proj2 (RegisterTargetService_panics_or_inserts happy
                    (start zero_Transport) "docker" "//./pipe/docker_engine")).
    reflexivity.
Defined.

(** C2. [RoundTrip] validates the request before it does anything else,
    in this order: a nil URL gives the error "http+npipe: nil Request.URL";
    otherwise a scheme other than "http+npipe" gives "unsupported protocol
    scheme: " followed by that scheme, whatever the host; otherwise an
    empty URL host gives "http+npipe: no Host in request URL".  In each
    case the response is nil, the state is the one the call started from,
    so that no call at all was logged (no lock taken for a lookup, no dial,
    no write, no read), and the result is the same for every registry. *)
Theorem RoundTrip_validates_before_any_call :
  ∀ (req : http.Request) (w : World) (s : State),
    Scheme = "http+npipe"
    ∧ (http.URL req = None →
         RoundTrip req w s =
           Done (None, Some (errors.New "http+npipe: nil Request.URL")) s
         ∧ added s (RoundTrip req w s) = [])
    ∧ (∀ u, http.URL req = Some u → url.Scheme u ≠ Scheme →
         RoundTrip req w s =
           Done (None, Some (errors.New
                   ("unsupported protocol scheme: " +:+ url.Scheme u))) s
         ∧ added s (RoundTrip req w s) = [])
    ∧ (∀ u, http.URL req = Some u → url.Scheme u = Scheme → url.Host u = "" →
         RoundTrip req w s =
           Done (None, Some (errors.New "http+npipe: no Host in request URL")) s
         ∧ added s (RoundTrip req w s) = []).
Proof.
  intros req w s. split; [reflexivity|]. split; [|split].
  - intros HU. rewrite RoundTrip_nil_URL by exact HU.
    split; [reflexivity|apply added_same].
  - intros u HU HS. rewrite (RoundTrip_other_scheme req u) by assumption.
    split; [reflexivity|apply added_same].
  - intros u HU HS HH. rewrite (RoundTrip_no_host req u) by assumption.
    split; [reflexivity|apply added_same].
Qed.

Lemma RoundTrip_validates_before_any_call_witness :
  (RoundTrip {| http.Method := "GET"; http.URL := None; http.Host := "docker" |}
     happy (start (docker_Transport 1 1)) =
     Done (None, Some (errors.New "http+npipe: nil Request.URL"))
       (start (docker_Transport 1 1)))
  ∧ (RoundTrip
       {| http.Method := "GET";
          http.URL := Some {| url.Scheme := "http"; url.Host := "";
                              url.Path := "/" |};
          http.Host := "docker" |}
       happy (start (docker_Transport 1 1)) =
       Done (None, Some (errors.New "unsupported protocol scheme: http"))
         (start (docker_Transport 1 1)))
  ∧ (RoundTrip
       {| http.Method := "GET";
          http.URL := Some {| url.Scheme := "http+npipe"; url.Host := "";
                              url.Path := "/" |};
          http.Host := "docker" |}
       happy (start (docker_Transport 1 1)) =
       Done (None, Some (errors.New "http+npipe: no Host in request URL"))
         (start (docker_Transport 1 1))).
Proof.
  split; [|split].
  - apply (RoundTrip_validates_before_any_call
             {| http.Method := "GET"; http.URL := None; http.Host := "docker" |}
             happy (start (docker_Transport 1 1))).
    reflexivity.
  - apply (proj1 (proj2 (proj2 (RoundTrip_validates_before_any_call
             {| http.Method := "GET";
                http.URL := Some {| url.Scheme := "http"; url.Host := "";
                                    url.Path := "/" |};
                http.Host := "docker" |}
             happy (start (docker_Transport 1 1))))) _ eq_refl).
    discriminate.
  - apply (proj2 (proj2 (proj2 (RoundTrip_validates_before_any_call
             {| http.Method := "GET";
                http.URL := Some {| url.Scheme := "http+npipe"; url.Host := "";
                                    url.Path := "/" |};
                http.Host := "docker" |}
             happy (start (docker_Transport 1 1))))) _ eq_refl);
      reflexivity.
Defined.

(** C3. For a valid request (URL present, scheme "http+npipe", non-empty
    URL host) whose URL host has no entry in the registry, [RoundTrip]
    returns a nil response and the error "unknown service: ..." having only
    taken and released the lock: no call on a connection is made, and no
    dial in particular.  For every request, a dial that [RoundTrip] makes
    is the dial of the pipe the registry holds for the URL host. *)
Theorem RoundTrip_unknown_service_no_dial :
  ∀ (req : http.Request) (w : World) (s : State),
    (∀ u, http.URL req = Some u → url.Scheme u = Scheme → url.Host u ≠ "" →
       snd (map_index (pipeMapping (tr s)) (url.Host u)) = false →
       RoundTrip req w s =
         Done (None, Some (errors.New ("unknown service: " +:+ http.Host req)))
           {| tr := tr s; log := log s ++ [mutex_Lock; mutex_Unlock] |}
       ∧ forallb (λ c, negb (is_io c)) (added s (RoundTrip req w s)) = true
       ∧ ∀ addr timeout,
           sockets_DialPipe addr timeout ∉ added s (RoundTrip req w s))
    ∧ (∀ addr timeout,
         sockets_DialPipe addr timeout ∈ added s (RoundTrip req w s) →
         ∃ u, http.URL req = Some u
              ∧ map_index (pipeMapping (tr s)) (url.Host u) = (addr, true)).
Proof.
  intros req w s. split.
  - intros u HU HS HH HM.
    rewrite (RoundTrip_unknown req u) by assumption. rewrite added_Done.
    split; [reflexivity|]. split; [reflexivity|].
    intros addr timeout Hin. log_inv Hin.
  - intros addr timeout.
    destruct (request_paths req (tr s))
      as [HU|[(u & HU & HS)|[(u & HU & HS & HH)|[(u & HU & HS & HH & HM)
         |(u & p & HU & HS & HH & HM)]]]].
    + rewrite RoundTrip_nil_URL by exact HU. rewrite added_same.
      intros Hin. log_inv Hin.
    + rewrite (RoundTrip_other_scheme req u) by assumption.
      rewrite added_same. intros Hin. log_inv Hin.
    + rewrite (RoundTrip_no_host req u) by assumption.
      rewrite added_same. intros Hin. log_inv Hin.
    + rewrite (RoundTrip_unknown req u) by assumption.
      rewrite added_Done. intros Hin. log_inv Hin.
    + rewrite (RoundTrip_exchange req u p) by assumption. cbv zeta.
      intros Hin. exists u. split; [exact HU|]. rewrite HM.
      assert (addr = p) as ->; [|reflexivity].
      destruct (w _ (sockets_DialPipe _ _)) as [c|err].
      * unfold write_deadline, read_deadline in Hin.
        destruct (w _ (Request_Write _ _)); repeat case_decide;
          rewrite <- ?app_assoc in Hin; rewrite added_Done in Hin;
          simpl in Hin; log_inv Hin; congruence.
      * rewrite added_Done in Hin. log_inv Hin. congruence.
Qed.

Lemma RoundTrip_unknown_service_no_dial_witness :
  RoundTrip docker_req happy (start compose_Transport) =
    Done (None, Some (errors.New "unknown service: docker"))
      {| tr := compose_Transport; log := [mutex_Lock; mutex_Unlock] |}
  ∧ (∃ u, http.URL docker_req = Some u
          ∧ map_index (pipeMapping (docker_Transport 0 0)) (url.Host u) =
              ("//./pipe/docker_engine", true)).
Proof.
  split.
  - apply (proj1 (RoundTrip_unknown_service_no_dial docker_req happy
                    (start compose_Transport)) docker_url);
      [reflexivity|reflexivity|discriminate|reflexivity].
  - apply (proj2 (RoundTrip_unknown_service_no_dial docker_req happy
                    (start (docker_Transport 0 0)))
             "//./pipe/docker_engine" 0).
    vm_compute. apply list_elem_of_In. simpl. tauto.
Defined.

(** C5. For a valid request whose URL host is registered: when the dial
    fails, [RoundTrip] returns a nil response and the very error value the
    dial gave, after that one dial and nothing else on a connection; when
    the dial succeeds and writing the request fails, it returns a nil
    response and the very error value the write gave, after one dial and
    one write and without reading a response.  Nothing is tried a second
    time. *)
Theorem RoundTrip_dial_and_write_errors_verbatim :
  ∀ (req : http.Request) (u : url.URL) (pipeName : string) (w : World)
    (s : State),
    http.URL req = Some u → url.Scheme u = Scheme → url.Host u ≠ "" →
    map_index (pipeMapping (tr s)) (url.Host u) = (pipeName, true) →
    let dial := sockets_DialPipe pipeName (DialTimeout (tr s)) in
    let l1 := log s ++ [mutex_Lock; mutex_Unlock; dial] in
    (∀ err, w (log s ++ [mutex_Lock; mutex_Unlock]) dial = inr err →
       RoundTrip req w s = Done (None, Some err) {| tr := tr s; log := l1 |}
       ∧ length (List.filter is_dial (added s (RoundTrip req w s))) = 1%nat
       ∧ List.filter is_write (added s (RoundTrip req w s)) = []
       ∧ List.filter is_read (added s (RoundTrip req w s)) = [])
    ∧ (∀ c err,
         w (log s ++ [mutex_Lock; mutex_Unlock]) dial = inl c →
         w (l1 ++ write_deadline w (tr s) c l1) (Request_Write req c) = Some err →
         RoundTrip req w s =
           Done (None, Some err)
             {| tr := tr s;
                log := l1 ++ write_deadline w (tr s) c l1 ++ [Request_Write req c] |}
         ∧ length (List.filter is_dial (added s (RoundTrip req w s))) = 1%nat
         ∧ length (List.filter is_write (added s (RoundTrip req w s))) = 1%nat
         ∧ List.filter is_read (added s (RoundTrip req w s)) = []).
Proof.
  intros req u pipeName w s HU HS HH HM dial l1.
  rewrite (RoundTrip_exchange req u pipeName) by assumption. cbv zeta.
  fold dial. fold l1. split.
  - intros err ->. split; [reflexivity|].
    unfold l1. rewrite added_Done. simpl. auto.
  - intros c err -> ->. rewrite <- app_assoc.
    split; [reflexivity|].
    unfold l1. rewrite <- app_assoc. rewrite added_Done.
    unfold write_deadline. case_decide; simpl; auto.
Qed.

Lemma RoundTrip_dial_and_write_errors_verbatim_witness :
  RoundTrip docker_req (scripted 1000 (inr pipe_busy) None (None, None))
    (start (docker_Transport 5 5)) =
    Done (None, Some pipe_busy)
      {| tr := docker_Transport 5 5;
         log := [mutex_Lock; mutex_Unlock;
                 sockets_DialPipe "//./pipe/docker_engine" 0] |}
  ∧ RoundTrip docker_req
      (scripted 1000 (inl 7%N) (Some write_timeout) (None, None))
      (start (docker_Transport 5 5)) =
      Done (None, Some write_timeout)
        {| tr := docker_Transport 5 5;
           log := [mutex_Lock; mutex_Unlock;
                   sockets_DialPipe "//./pipe/docker_engine" 0;
                   time_Now; SetWriteDeadline 7%N 1005;
                   Request_Write docker_req 7%N] |}.
Proof.
  split.
  - apply (proj1 (RoundTrip_dial_and_write_errors_verbatim docker_req
             docker_url "//./pipe/docker_engine"
             (scripted 1000 (inr pipe_busy) None (None, None))
             (start (docker_Transport 5 5))
             eq_refl eq_refl ltac:(discriminate) eq_refl) pipe_busy).
    reflexivity.
  - apply (proj2 (RoundTrip_dial_and_write_errors_verbatim docker_req
             docker_url "//./pipe/docker_engine"
             (scripted 1000 (inl 7%N) (Some write_timeout) (None, None))
             (start (docker_Transport 5 5))
             eq_refl eq_refl ltac:(discriminate) eq_refl) 7%N write_timeout);
      reflexivity.
Defined.

(** C6. For two distinct service names, neither yet in the registry,
    registering the first and then the second returns normally both times
    (no panic), and afterwards the lookup [RoundTrip] performs finds the
    first name mapped to the first pipe and the second name to the second:
    a valid request for either name dials that name's pipe. *)
Theorem RegisterTargetService_two_services :
  ∀ (w : World) (s : State) (s1 p1 s2 p2 : string),
    s1 ≠ s2 →
    snd (map_index (pipeMapping (tr s)) s1) = false →
    snd (map_index (pipeMapping (tr s)) s2) = false →
    ∃ s', (RegisterTargetService s1 p1;; RegisterTargetService s2 p2) w s =
            Done tt s'
          ∧ map_index (pipeMapping (tr s')) s1 = (p1, true)
          ∧ map_index (pipeMapping (tr s')) s2 = (p2, true)
          ∧ ∀ req u, http.URL req = Some u → url.Scheme u = Scheme →
              url.Host u ≠ "" →
              (url.Host u = s1 →
               sockets_DialPipe p1 (DialTimeout (tr s'))
                 ∈ added s' (RoundTrip req w s'))
              ∧ (url.Host u = s2 →
                 sockets_DialPipe p2 (DialTimeout (tr s'))
                   ∈ added s' (RoundTrip req w s')).
Proof.
  intros w s s1 p1 s2 p2 Hne H1 H2.
  assert (Hdial : ∀ s' req u p,
    http.URL req = Some u → url.Scheme u = Scheme → url.Host u ≠ "" →
    map_index (pipeMapping (tr s')) (url.Host u) = (p, true) →
    sockets_DialPipe p (DialTimeout (tr s')) ∈ added s' (RoundTrip req w s')).
  { intros s' req u p HU HS HH HM.
    rewrite (RoundTrip_exchange req u p) by assumption. cbv zeta.
    destruct (w _ (sockets_DialPipe _ _)) as [c|err].
    - destruct (w _ (Request_Write _ _));
        rewrite <- ?app_assoc; rewrite added_Done; simpl;
        do 2 apply list_elem_of_further; apply list_elem_of_here.
    - rewrite added_Done. do 2 apply list_elem_of_further.
      apply list_elem_of_here. }
  unfold mbind, Go_bind, bind.
  rewrite RegisterTargetService_run, H1.
  rewrite RegisterTargetService_run. cbn [tr log pipeMapping with_pipeMapping].
  assert (H2' : snd (map_index
                       (Some (<[s1:=p1]> (default ∅ (pipeMapping (tr s))))) s2) = false).
  { rewrite map_index_Some, lookup_insert_ne by exact Hne.
    apply map_index_absent in H2. unfold map_index in H2.
    destruct (pipeMapping (tr s)) as [g|]; simpl.
    - destruct (g !! s2); [discriminate|reflexivity].
    - rewrite lookup_empty. reflexivity. }
  rewrite H2'.
  assert (M1 : map_index (Some (<[s2:=p2]> (<[s1:=p1]> (default ∅ (pipeMapping (tr s)))))) s1
               = (p1, true)).
  { rewrite map_index_Some, lookup_insert_ne by (intros E; apply Hne; symmetry; exact E).
    rewrite lookup_insert_eq. reflexivity. }
  assert (M2 : map_index (Some (<[s2:=p2]> (<[s1:=p1]> (default ∅ (pipeMapping (tr s)))))) s2
               = (p2, true)).
  { rewrite map_index_Some, lookup_insert_eq. reflexivity. }
  match goal with |- ∃ s', Done tt ?st = Done tt s' ∧ _ => exists st end.
  split; [reflexivity|]. split; [exact M1|]. split; [exact M2|].
  intros req u HU HS HH. split; intros E.
  - apply (Hdial _ req u p1 HU HS HH). rewrite E. exact M1.
  - apply (Hdial _ req u p2 HU HS HH). rewrite E. exact M2.
Qed.

Lemma RegisterTargetService_two_services_witness :
  ∃ s', (RegisterTargetService "docker" "//./pipe/docker_engine";;
         RegisterTargetService "compose" "//./pipe/compose") happy
          (start zero_Transport) = Done tt s'
        ∧ map_index (pipeMapping (tr s')) "docker" =
            ("//./pipe/docker_engine", true)
        ∧ map_index (pipeMapping (tr s')) "compose" =
            ("//./pipe/compose", true).
Proof.
  destruct (RegisterTargetService_two_services happy (start zero_Transport)
              "docker" "//./pipe/docker_engine" "compose" "//./pipe/compose"
              ltac:(discriminate) eq_refl eq_refl)
    as (s' & Hrun & Hd & Hc & _).
  exists s'. split; [exact Hrun|]. split; [exact Hd|exact Hc].
Defined.

(** C7. Every operation on a transport, in any world and whether it
    returns or panics, leaves each entry of the registry as it was: a
    service name that was mapped to a pipe is mapped to the same pipe after
    a [RegisterTargetService] (of any name, also a duplicate) and after a
    [RoundTrip], and so after any sequence of them. *)
Theorem registry_entries_persist :
  ∀ (ops : list Op) (w : World) (s : State) (k v : string),
    map_index (pipeMapping (tr s)) k = (v, true) →
    map_index (pipeMapping (tr (perform_all ops w s))) k = (v, true).
Proof.
  induction ops as [|op ops IH]; intros w s k v Hk; [exact Hk|].
  simpl. apply IH. destruct op as [serviceName pipeName|req]; simpl.
  - rewrite RegisterTargetService_run.
    destruct (snd (map_index (pipeMapping (tr s)) serviceName)) eqn:Hs; simpl.
    + exact Hk.
    + apply map_index_insert_ne; [|exact Hk].
      intros ->. rewrite Hk in Hs. discriminate.
  - destruct (request_paths req (tr s))
      as [HU|[(u & HU & HS)|[(u & HU & HS & HH)|[(u & HU & HS & HH & HM)
         |(u & p & HU & HS & HH & HM)]]]].
    + rewrite RoundTrip_nil_URL by exact HU. exact Hk.
    + rewrite (RoundTrip_other_scheme req u) by assumption. exact Hk.
    + rewrite (RoundTrip_no_host req u) by assumption. exact Hk.
    + rewrite (RoundTrip_unknown req u) by assumption. exact Hk.
    + rewrite (RoundTrip_exchange req u p) by assumption. cbv zeta.
      destruct (w _ (sockets_DialPipe _ _)) as [c|err]; [|exact Hk].
      destruct (w _ (Request_Write _ _)); exact Hk.
Qed.

Lemma registry_entries_persist_witness :
  map_index
    (pipeMapping (tr (perform_all
       [OpRegister "compose" "//./pipe/compose";
        OpRegister "docker" "//./pipe/other";
        OpRoundTrip docker_req]
       happy (start (docker_Transport 0 0))))) "docker" =
    ("//./pipe/docker_engine", true).
Proof.
  apply (registry_entries_persist
           [OpRegister "compose" "//./pipe/compose";
            OpRegister "docker" "//./pipe/other";
            OpRoundTrip docker_req]
           happy (start (docker_Transport 0 0))
           "docker" "//./pipe/docker_engine").
  reflexivity.
Defined.

(** C8. When the lookup of the URL host fails, the error [RoundTrip]
    returns reads "unknown service: " followed by the request's own [Host]
    field, not by the URL host that was looked up; when the two differ
    (the [Host] field may be empty) the error does not name the service
    that was looked up. *)
Theorem RoundTrip_unknown_service_names_request_Host :
  ∀ (req : http.Request) (u : url.URL) (w : World) (s : State),
    http.URL req = Some u → url.Scheme u = Scheme → url.Host u ≠ "" →
    snd (map_index (pipeMapping (tr s)) (url.Host u)) = false →
    ∃ e s', RoundTrip req w s = Done (None, Some e) s'
            ∧ Error e = "unknown service: " +:+ http.Host req
            ∧ (http.Host req ≠ url.Host u →
               Error e ≠ "unknown service: " +:+ url.Host u).
Proof.
  intros req u w s HU HS HH HM.
  rewrite (RoundTrip_unknown req u) by assumption.
  eexists. eexists. split; [reflexivity|]. split; [reflexivity|].
  intros Hne E. apply Hne. simpl in E.
  apply (append_inj_prefix "unknown service: "). exact E.
Qed.

Lemma RoundTrip_unknown_service_names_request_Host_witness :
  ∃ e s', RoundTrip compose_req happy (start compose_Transport) =
            Done (None, Some e) s'
          ∧ Error e = "unknown service: "
          ∧ Error e ≠ "unknown service: docker".
Proof.
  destruct (RoundTrip_unknown_service_names_request_Host compose_req
              {| url.Scheme := "http+npipe"; url.Host := "docker";
                 url.Path := "/" |}
              happy (start compose_Transport)
              eq_refl eq_refl ltac:(discriminate) eq_refl)
    as (e & s' & Hrun & Hmsg & Hother).
  exists e, s'. split; [exact Hrun|]. split; [exact Hmsg|].
  apply Hother. discriminate.
Defined.

(** C10. On a transport whose map was never initialised (the nil map),
    [RoundTrip] returns for every request and never panics; for a valid
    "http+npipe" request the lookup reports the host as absent and the
    call returns a nil response and the error "unknown service: ...".
    [RegisterTargetService] on such a transport returns normally: it
    initialises the map first, and the registry is then exactly the one
    new entry. *)
Theorem zero_value_Transport_is_usable :
  ∀ (w : World) (s : State),
    pipeMapping (tr s) = None →
    (∀ req, ∃ r s', RoundTrip req w s = Done r s')
    ∧ (∀ req u, http.URL req = Some u → url.Scheme u = Scheme →
         url.Host u ≠ "" →
         map_index (pipeMapping (tr s)) (url.Host u) = (EmptyString, false)
         ∧ RoundTrip req w s =
             Done (None, Some (errors.New ("unknown service: " +:+ http.Host req)))
               {| tr := tr s; log := log s ++ [mutex_Lock; mutex_Unlock] |})
    ∧ (∀ serviceName pipeName,
         RegisterTargetService serviceName pipeName w s =
           Done tt
             {| tr := with_pipeMapping (Some {[ serviceName := pipeName ]}) (tr s);
                log := log s ++ [mutex_Lock; mutex_Unlock] |}).
Proof.
  intros w s Hnil.
  assert (Habsent : ∀ k, map_index (pipeMapping (tr s)) k = (EmptyString, false)).
  { intros k. rewrite Hnil. reflexivity. }
  split; [|split].
  - intros req.
    destruct (request_paths req (tr s))
      as [HU|[(u & HU & HS)|[(u & HU & HS & HH)|[(u & HU & HS & HH & HM)
         |(u & p & HU & HS & HH & HM)]]]].
    + rewrite RoundTrip_nil_URL by exact HU. eauto.
    + rewrite (RoundTrip_other_scheme req u) by assumption. eauto.
    + rewrite (RoundTrip_no_host req u) by assumption. eauto.
    + rewrite (RoundTrip_unknown req u) by assumption. eauto.
    + rewrite Habsent in HM. discriminate.
  - intros req u HU HS HH. split; [apply Habsent|].
    apply (RoundTrip_unknown req u); try assumption.
    rewrite Habsent. reflexivity.
  - intros serviceName pipeName.
    rewrite RegisterTargetService_run, Habsent, Hnil. reflexivity.
Qed.

Lemma zero_value_Transport_is_usable_witness :
  RoundTrip docker_req happy (start zero_Transport) =
    Done (None, Some (errors.New "unknown service: docker"))
      {| tr := zero_Transport; log := [mutex_Lock; mutex_Unlock] |}
  ∧ RegisterTargetService "docker" "//./pipe/docker_engine" happy
      (start zero_Transport) =
      Done tt
        {| tr := with_pipeMapping
                   (Some {[ "docker" := "//./pipe/docker_engine" ]})
                   zero_Transport;
           log := [mutex_Lock; mutex_Unlock] |}.
Proof.
  split.
  - apply (proj1 (proj2 (zero_value_Transport_is_usable happy
             (start zero_Transport) eq_refl)) docker_req docker_url
             eq_refl eq_refl ltac:(discriminate)).
  - apply (proj2 (proj2 (zero_value_Transport_is_usable happy
             (start zero_Transport) eq_refl))).
Defined.

(** *** Deadlines *)

Lemma called_before_elem (a b : Call) (l : list Call) :
  called_before a b l → a ∈ l.
Proof.
  intros (l1 & l2 & l3 & ->). apply elem_of_app. right.
  apply list_elem_of_here.
Qed.

Lemma write_deadline_nonpos w t c l :
  RequestTimeout t ≤ 0 → write_deadline w t c l = [].
Proof. intros H. unfold write_deadline. case_decide; [lia|reflexivity]. Qed.

Lemma read_deadline_nonpos w t c l :
  ResponseHeaderTimeout t ≤ 0 → read_deadline w t c l = [].
Proof. intros H. unfold read_deadline. case_decide; [lia|reflexivity]. Qed.




(** The calls of a [RoundTrip] whose dial gave the connection [c]: the
    write deadline or nothing, the write, and then nothing more when the
    write failed, or else the read deadline or nothing and the parse. *)
Lemma RoundTrip_dialed req u pipeName (w : World) (s : State) (c : Conn) :
  http.URL req = Some u → url.Scheme u = Scheme → url.Host u ≠ "" →
  map_index (pipeMapping (tr s)) (url.Host u) = (pipeName, true) →
  w (log s ++ [mutex_Lock; mutex_Unlock])
    (sockets_DialPipe pipeName (DialTimeout (tr s))) = inl c →
  let pre := [mutex_Lock; mutex_Unlock;
              sockets_DialPipe pipeName (DialTimeout (tr s))]
               ++ write_deadline w (tr s) c
                    (log s ++ [mutex_Lock; mutex_Unlock;
                               sockets_DialPipe pipeName (DialTimeout (tr s))]) in
  added s (RoundTrip req w s) =
    pre ++ Request_Write req c
        :: match w (log s ++ pre) (Request_Write req c) with
           | Some _ => []
           | None =>
               read_deadline w (tr s) c (log s ++ pre ++ [Request_Write req c])
                 ++ [http_ReadResponse (bufio.NewReader c) req]
           end.
Proof.
  intros HU HS HH HM Hdial pre.
  rewrite (RoundTrip_exchange req u pipeName) by assumption. cbv zeta.
  rewrite Hdial. subst pre. rewrite !app_assoc.
  destruct (w _ (Request_Write _ _)) as [err|].
  - rewrite <- ?app_assoc. rewrite added_Done. rewrite <- ?app_assoc.
    reflexivity.
  - rewrite <- ?app_assoc. rewrite added_Done. rewrite <- ?app_assoc.
    reflexivity.
Qed.

(** A [RoundTrip] that writes the request on [c] is one whose dial gave
    [c]. *)
Lemma RoundTrip_write_phase req (w : World) (s : State) (c : Conn) :
  Request_Write req c ∈ added s (RoundTrip req w s) →
  ∃ u pipeName,
    http.URL req = Some u ∧ url.Scheme u = Scheme ∧ url.Host u ≠ ""
    ∧ map_index (pipeMapping (tr s)) (url.Host u) = (pipeName, true)
    ∧ w (log s ++ [mutex_Lock; mutex_Unlock])
        (sockets_DialPipe pipeName (DialTimeout (tr s))) = inl c.
Proof.
  destruct (request_paths req (tr s))
    as [HU|[(u & HU & HS)|[(u & HU & HS & HH)|[(u & HU & HS & HH & HM)
       |(u & p & HU & HS & HH & HM)]]]].
  - rewrite RoundTrip_nil_URL by exact HU. rewrite added_same.
    intros Hin. log_inv Hin.
  - rewrite (RoundTrip_other_scheme req u) by assumption.
    rewrite added_same. intros Hin. log_inv Hin.
  - rewrite (RoundTrip_no_host req u) by assumption.
    rewrite added_same. intros Hin. log_inv Hin.
  - rewrite (RoundTrip_unknown req u) by assumption.
    rewrite added_Done. intros Hin. log_inv Hin.
  - intros Hin. exists u, p. repeat (split; [assumption|]).
    destruct (w (log s ++ [mutex_Lock; mutex_Unlock])
                (sockets_DialPipe p (DialTimeout (tr s)))) as [c0|err] eqn:Hdial.
    + rewrite (RoundTrip_dialed req u p w s c0) in Hin by assumption.
      cbv zeta in Hin. unfold write_deadline, read_deadline in Hin.
      destruct (w _ (Request_Write _ _)); repeat case_decide;
        simpl in Hin; log_inv Hin; congruence.
    + rewrite (RoundTrip_exchange req u p) in Hin by assumption.
      cbv zeta in Hin. rewrite Hdial in Hin. rewrite added_Done in Hin.
      log_inv Hin.
Qed.


(** C4, as amended. In a [RoundTrip] that reaches the write of the
    request on connection [c], the calls are [pre], the write, [post]
    with no write in [pre], and: when [RequestTimeout] is strictly
    positive, [pre] ends with a reading of the clock and the setting of
    the write deadline of [c] to that reading plus [RequestTimeout], so
    the deadline is applied immediately before the request is written;
    when the write succeeds, the response is parsed, and when
    [ResponseHeaderTimeout] is strictly positive the parsing is
    immediately preceded by a reading of the clock and the setting of the
    read deadline of [c] to that reading plus [ResponseHeaderTimeout];
    when the write fails nothing follows it; a timeout that is zero or
    negative sets no deadline at all. *)
Theorem RoundTrip_deadlines_for_positive_timeouts :
  ∀ (req : http.Request) (w : World) (s : State) (c : Conn),
    Request_Write req c ∈ added s (RoundTrip req w s) →
    ∃ pre post,
      added s (RoundTrip req w s) = pre ++ Request_Write req c :: post
      ∧ List.filter is_write pre = []
      ∧ (RequestTimeout (tr s) > 0 →
           ∃ pre',
             pre = pre' ++ [time_Now;
                            SetWriteDeadline c
                              (time.Add (w (log s ++ pre') time_Now)
                                 (RequestTimeout (tr s)))]
             ∧ List.filter is_deadline pre' = [])
      ∧ (RequestTimeout (tr s) ≤ 0 →
           ∀ c' d, SetWriteDeadline c' d ∉ added s (RoundTrip req w s))
      ∧ (∀ err, w (log s ++ pre) (Request_Write req c) = Some err →
                post = [])
      ∧ (w (log s ++ pre) (Request_Write req c) = None →
           (ResponseHeaderTimeout (tr s) > 0 →
              post = [time_Now;
                      SetReadDeadline c
                        (time.Add
                           (w (log s ++ pre ++ [Request_Write req c]) time_Now)
                           (ResponseHeaderTimeout (tr s)));
                      http_ReadResponse (bufio.NewReader c) req])
           ∧ (ResponseHeaderTimeout (tr s) ≤ 0 →
                post = [http_ReadResponse (bufio.NewReader c) req]))
      ∧ (ResponseHeaderTimeout (tr s) ≤ 0 →
           ∀ c' d, SetReadDeadline c' d ∉ added s (RoundTrip req w s)).
Proof.
  intros req w s c Hin.
  destruct (RoundTrip_write_phase req w s c Hin)
    as (u & p & HU & HS & HH & HM & Hdial).
  pose proof (RoundTrip_dialed req u p w s c HU HS HH HM Hdial) as E.
  cbv zeta in E. clear Hin.
  set (dial := sockets_DialPipe p (DialTimeout (tr s))) in *.
  set (wd := write_deadline w (tr s) c (log s ++ [mutex_Lock; mutex_Unlock; dial])) in *.
  exists ([mutex_Lock; mutex_Unlock; dial] ++ wd). eexists.
  split; [exact E|].
  split; [subst wd; unfold write_deadline; case_decide; reflexivity|].
  split; [|split; [|split; [|split]]].
  - intros Hpos. exists [mutex_Lock; mutex_Unlock; dial].
    subst wd. unfold write_deadline. rewrite decide_True by exact Hpos.
    split; reflexivity.
  - intros Hnon c' d Hin. rewrite E in Hin. clear E. subst wd.
    rewrite write_deadline_nonpos in Hin by exact Hnon.
    unfold read_deadline in Hin.
    destruct (w _ (Request_Write _ _)); repeat case_decide;
      simpl in Hin; log_inv Hin.
  - intros err ->. reflexivity.
  - intros ->. split.
    + intros Hpos. unfold read_deadline. rewrite decide_True by exact Hpos.
      reflexivity.
    + intros Hnon. rewrite read_deadline_nonpos by exact Hnon. reflexivity.
  - intros Hnon c' d Hin. rewrite E in Hin. clear E.
    subst wd. unfold write_deadline in Hin.
    destruct (w _ (Request_Write _ _));
      rewrite ?read_deadline_nonpos in Hin by exact Hnon;
      repeat case_decide; simpl in Hin; log_inv Hin.
Qed.

Lemma RoundTrip_deadlines_for_positive_timeouts_witness :
  ∃ pre post,
    added (start (docker_Transport 5 3))
      (RoundTrip docker_req happy (start (docker_Transport 5 3))) =
      pre ++ Request_Write docker_req 7%N :: post
    ∧ (∃ pre', pre = pre' ++ [time_Now; SetWriteDeadline 7%N 1005])
    ∧ post = [time_Now; SetReadDeadline 7%N 1003;
              http_ReadResponse (bufio.NewReader 7%N) docker_req].
Proof.
  destruct (RoundTrip_deadlines_for_positive_timeouts docker_req happy
              (start (docker_Transport 5 3)) 7%N
              ltac:(vm_compute; apply list_elem_of_In; simpl; tauto))
    as (pre & post & E & _ & Hwd & _ & _ & Hrd & _).
  exists pre, post. split; [exact E|]. split.
  - destruct (Hwd eq_refl) as (pre' & Hpre & _). exists pre'. exact Hpre.
  - apply (proj1 (Hrd eq_refl)). reflexivity.
Defined.

(** C4, as stated, fails: with [RequestTimeout] set to -1 (a set value,
    not the zero value) a call that reaches the write phase applies no
    write deadline. *)
Lemma negative_RequestTimeout_applies_no_deadline :
  ¬ (∀ (req : http.Request) (w : World) (s : State) (c : Conn),
       Request_Write req c ∈ added s (RoundTrip req w s) →
       (RequestTimeout (tr s) ≠ 0 →
          ∃ now,
            called_before
              (SetWriteDeadline c (time.Add now (RequestTimeout (tr s))))
              (Request_Write req c) (added s (RoundTrip req w s)))
       ∧ (ResponseHeaderTimeout (tr s) ≠ 0 →
            ∀ r, http_ReadResponse r req ∈ added s (RoundTrip req w s) →
              ∃ now,
                called_before
                  (SetReadDeadline c
                     (time.Add now (ResponseHeaderTimeout (tr s))))
                  (http_ReadResponse r req) (added s (RoundTrip req w s)))
       ∧ (RequestTimeout (tr s) = 0 →
            ∀ c' d, SetWriteDeadline c' d ∉ added s (RoundTrip req w s))
       ∧ (ResponseHeaderTimeout (tr s) = 0 →
            ∀ c' d, SetReadDeadline c' d ∉ added s (RoundTrip req w s))).
Proof.
  intros claim.
  destruct (claim docker_req happy (start (docker_Transport (-1) 0)) 7%N)
    as [Hwrite _].
  { vm_compute. apply list_elem_of_In. simpl. tauto. }
  destruct Hwrite as [now Hbefore]; [discriminate|].
  apply called_before_elem in Hbefore.
  assert (E : added (start (docker_Transport (-1) 0))
                (RoundTrip docker_req happy (start (docker_Transport (-1) 0))) =
              [mutex_Lock; mutex_Unlock;
               sockets_DialPipe "//./pipe/docker_engine" 0;
               Request_Write docker_req 7%N;
               http_ReadResponse (bufio.NewReader 7%N) docker_req])
    by reflexivity.
  rewrite E in Hbefore. log_inv Hbefore.
Qed.





(** *** Further properties of the two methods *)

(** The calls of a [RoundTrip], in each of the ways it can end. *)
Lemma RoundTrip_added_shape req w s :
  added s (RoundTrip req w s) = []
  ∨ added s (RoundTrip req w s) = [mutex_Lock; mutex_Unlock]
  ∨ ∃ pipeName,
      added s (RoundTrip req w s) =
        [mutex_Lock; mutex_Unlock;
         sockets_DialPipe pipeName (DialTimeout (tr s))]
      ∨ ∃ c wd rd,
          (wd = [] ∨ ∃ t, wd = [time_Now; SetWriteDeadline c t])
          ∧ (rd = [] ∨ ∃ t, rd = [time_Now; SetReadDeadline c t])
          ∧ (added s (RoundTrip req w s) =
               [mutex_Lock; mutex_Unlock;
                sockets_DialPipe pipeName (DialTimeout (tr s))]
                 ++ wd ++ [Request_Write req c]
             ∨ added s (RoundTrip req w s) =
                 [mutex_Lock; mutex_Unlock;
                  sockets_DialPipe pipeName (DialTimeout (tr s))]
                   ++ wd ++ [Request_Write req c] ++ rd
                   ++ [http_ReadResponse (bufio.NewReader c) req]).
Proof.
  destruct (request_paths req (tr s))
    as [HU|[(u & HU & HS)|[(u & HU & HS & HH)|[(u & HU & HS & HH & HM)
       |(u & p & HU & HS & HH & HM)]]]].
  - rewrite RoundTrip_nil_URL by exact HU. left. apply added_same.
  - rewrite (RoundTrip_other_scheme req u) by assumption. left. apply added_same.
  - rewrite (RoundTrip_no_host req u) by assumption. left. apply added_same.
  - rewrite (RoundTrip_unknown req u) by assumption. right. left.
    apply added_Done.
  - rewrite (RoundTrip_exchange req u p) by assumption. cbv zeta.
    right. right. exists p.
    destruct (w _ (sockets_DialPipe _ _)) as [c|err];
      [|left; apply added_Done].
    right.
    exists c, (write_deadline w (tr s) c
                 (log s ++ [mutex_Lock; mutex_Unlock;
                            sockets_DialPipe p (DialTimeout (tr s))])).
    eexists (read_deadline w (tr s) c _).
    split; [unfold write_deadline; case_decide; eauto|].
    split; [unfold read_deadline; case_decide; eauto|].
    destruct (w _ (Request_Write _ _)) as [err|].
    + left. rewrite <- ?app_assoc. apply added_Done.
    + right. rewrite <- ?app_assoc. apply added_Done.
Qed.

(** X1. [RoundTrip] writes to no field of the transport: on every path
    of a call, and whatever the collaborators answer, the three timeouts
    and the registry are afterwards what they were before. *)
Theorem RoundTrip_keeps_transport :
  ∀ (req : http.Request) (w : World) (s : State),
    tr (final (RoundTrip req w s)) = tr s.
Proof.
  intros req w s.
  destruct (request_paths req (tr s))
    as [HU|[(u & HU & HS)|[(u & HU & HS & HH)|[(u & HU & HS & HH & HM)
       |(u & p & HU & HS & HH & HM)]]]].
  - rewrite RoundTrip_nil_URL by exact HU. reflexivity.
  - rewrite (RoundTrip_other_scheme req u) by assumption. reflexivity.
  - rewrite (RoundTrip_no_host req u) by assumption. reflexivity.
  - rewrite (RoundTrip_unknown req u) by assumption. reflexivity.
  - rewrite (RoundTrip_exchange req u p) by assumption. cbv zeta.
    destruct (w _ (sockets_DialPipe _ _)) as [c|err]; [|reflexivity].
    destruct (w _ (Request_Write _ _)); reflexivity.
Qed.

(** X2. What [RoundTrip] returns is either a nil response with an error,
    in a call that parses no response, or exactly the pair that
    [http.ReadResponse] gave, response and error as they are, and then the
    parse is the last call of the [RoundTrip]. *)
Theorem RoundTrip_result_is_error_or_parse :
  ∀ (req : http.Request) (w : World) (s : State),
    (∃ e, returned (RoundTrip req w s) = Some (None, Some e)
          ∧ List.filter is_read (added s (RoundTrip req w s)) = [])
    ∨ (∃ pre c,
         added s (RoundTrip req w s) =
           pre ++ [http_ReadResponse (bufio.NewReader c) req]
         ∧ List.filter is_read pre = []
         ∧ returned (RoundTrip req w s) =
             Some (w (log s ++ pre) (http_ReadResponse (bufio.NewReader c) req))).
Proof.
  intros req w s.
  destruct (request_paths req (tr s))
    as [HU|[(u & HU & HS)|[(u & HU & HS & HH)|[(u & HU & HS & HH & HM)
       |(u & p & HU & HS & HH & HM)]]]].
  - rewrite RoundTrip_nil_URL by exact HU. rewrite added_same. left. eauto.
  - rewrite (RoundTrip_other_scheme req u) by assumption.
    rewrite added_same. left. eauto.
  - rewrite (RoundTrip_no_host req u) by assumption.
    rewrite added_same. left. eauto.
  - rewrite (RoundTrip_unknown req u) by assumption. rewrite added_Done.
    left. eauto.
  - rewrite (RoundTrip_exchange req u p) by assumption. cbv zeta.
    destruct (w _ (sockets_DialPipe _ _)) as [c|err];
      [|rewrite added_Done; left; eauto].
    destruct (w _ (Request_Write _ _)) as [err|].
    + left. rewrite <- ?app_assoc. rewrite added_Done.
      exists err. split; [reflexivity|].
      unfold write_deadline. case_decide; reflexivity.
    + right.
      exists ([mutex_Lock; mutex_Unlock;
               sockets_DialPipe p (DialTimeout (tr s))]
                ++ write_deadline w (tr s) c
                     (log s ++ [mutex_Lock; mutex_Unlock;
                                sockets_DialPipe p (DialTimeout (tr s))])
                ++ [Request_Write req c]
                ++ read_deadline w (tr s) c
                     ((log s ++ [mutex_Lock; mutex_Unlock;
                                 sockets_DialPipe p (DialTimeout (tr s))])
                        ++ write_deadline w (tr s) c
                             (log s ++ [mutex_Lock; mutex_Unlock;
                                        sockets_DialPipe p (DialTimeout (tr s))])
                        ++ [Request_Write req c])), c.
      rewrite <- ?app_assoc. rewrite added_Done.
      split; [simpl; rewrite <- ?app_assoc; reflexivity|].
      split.
      * unfold write_deadline, read_deadline. repeat case_decide; reflexivity.
      * simpl. rewrite <- ?app_assoc. reflexivity.
Qed.

Lemma clock_sets_deadline_nil : clock_sets_deadline [].
Proof. intros [|? ?] post H; discriminate H. Qed.

Lemma clock_sets_deadline_skip c l :
  is_clock c = false → clock_sets_deadline l → clock_sets_deadline (c :: l).
Proof.
  intros Hc Hl [|c' pre] post H; simpl in H.
  - injection H as -> _. discriminate Hc.
  - injection H as _ H. exact (Hl pre post H).
Qed.

Lemma clock_sets_deadline_here d l :
  is_deadline d = true → clock_sets_deadline l →
  clock_sets_deadline (time_Now :: d :: l).
Proof.
  intros Hd Hl [|c' pre] post H; simpl in H.
  - injection H as <-. eauto.
  - injection H as _ H. apply (clock_sets_deadline_skip d l) in H; [exact H| |exact Hl].
    destruct d; try discriminate Hd; reflexivity.
Qed.

(** X3. The calls of a [RoundTrip] other than clock readings come in the
    order lock, unlock, dial, write deadline, write, read deadline, parse,
    each at most once: nothing is retried and no phase is entered before
    the one in front of it.  Every clock reading is immediately followed
    by the setting of a deadline. *)
Theorem RoundTrip_calls_in_order :
  ∀ (req : http.Request) (w : World) (s : State),
    StronglySorted lt
      (phase <$> List.filter (λ c, negb (is_clock c))
                   (added s (RoundTrip req w s)))
    ∧ clock_sets_deadline (added s (RoundTrip req w s)).
Proof.
  intros req w s.
  assert (Hclock : ∀ l, Forall (λ c, is_clock c = false) l →
                        clock_sets_deadline l).
  { induction 1; [apply clock_sets_deadline_nil|].
    apply clock_sets_deadline_skip; assumption. }
  destruct (RoundTrip_added_shape req w s)
    as [E|[E|(p & [E|(c & wd & rd & Hwd & Hrd & E)])]].
  - rewrite E. split; [constructor|apply clock_sets_deadline_nil].
  - rewrite E. split; [simpl; repeat constructor|].
    apply Hclock. repeat constructor.
  - rewrite E. split; [simpl; repeat constructor|].
    apply Hclock. repeat constructor.
  - destruct Hwd as [->|[t ->]]; destruct Hrd as [->|[t' ->]];
      destruct E as [E|E]; rewrite E; clear E; simpl;
      (split; [repeat constructor|]);
      repeat first
        [ apply clock_sets_deadline_nil
        | apply clock_sets_deadline_here; [reflexivity|]
        | apply clock_sets_deadline_skip; [reflexivity|] ].
Qed.

(** X4. Both methods use the mutex correctly from a free mutex: they never
    lock it while holding it, never unlock it while it is free, make no
    call to a collaborator while holding it (the dial, the write and the
    read all happen after the unlock), and leave it free at the end, also
    when [RegisterTargetService] panics. *)
Theorem mutex_released_before_any_call :
  ∀ (w : World) (s : State),
    (∀ serviceName pipeName,
       mutex_after false
         (added s (RegisterTargetService serviceName pipeName w s)) = Some false)
    ∧ (∀ req, mutex_after false (added s (RoundTrip req w s)) = Some false).
Proof.
  intros w s. split.
  - intros serviceName pipeName. rewrite RegisterTargetService_run.
    destruct (snd (map_index (pipeMapping (tr s)) serviceName)).
    + unfold added. simpl. rewrite drop_app_length. reflexivity.
    + rewrite added_Done. reflexivity.
  - intros req.
    destruct (RoundTrip_added_shape req w s)
      as [E|[E|(p & [E|(c & wd & rd & Hwd & Hrd & E)])]].
    + rewrite E. reflexivity.
    + rewrite E. reflexivity.
    + rewrite E. reflexivity.
    + destruct Hwd as [->|[t ->]]; destruct Hrd as [->|[t' ->]];
        destruct E as [E|E]; rewrite E; reflexivity.
Qed.

(** X5. [RegisterTargetService] touches nothing but the entry of the name
    it is given: whether it returns or panics, its only calls are the lock
    and the unlock, the three timeouts are as they were, and the lookup of
    every other name gives what it gave before. *)
Theorem RegisterTargetService_touches_one_entry :
  ∀ (w : World) (s : State) (serviceName pipeName : string),
    let s' := final (RegisterTargetService serviceName pipeName w s) in
    added s (RegisterTargetService serviceName pipeName w s) =
      [mutex_Lock; mutex_Unlock]
    ∧ DialTimeout (tr s') = DialTimeout (tr s)
    ∧ RequestTimeout (tr s') = RequestTimeout (tr s)
    ∧ ResponseHeaderTimeout (tr s') = ResponseHeaderTimeout (tr s)
    ∧ ∀ k, k ≠ serviceName →
        map_index (pipeMapping (tr s')) k = map_index (pipeMapping (tr s)) k.
Proof.
  intros w s serviceName pipeName. cbv zeta.
  rewrite RegisterTargetService_run.
  destruct (snd (map_index (pipeMapping (tr s)) serviceName)).
  - split; [unfold added; simpl; apply drop_app_length|].
    simpl. auto.
  - rewrite added_Done.
    cbn [final tr pipeMapping with_pipeMapping DialTimeout RequestTimeout
         ResponseHeaderTimeout].
    do 4 (split; [reflexivity|]).
    intros k Hk.
    rewrite map_index_Some, lookup_insert_ne
      by (intros E; apply Hk; symmetry; exact E).
    destruct (pipeMapping (tr s)) as [g|]; simpl; [reflexivity|].
    rewrite lookup_empty. reflexivity.
Qed.

(** X6. Registering one name twice in a row never goes through: on every
    transport the pair of calls ends in the panic "service NAME already
    registered", and the name is then mapped to the pipe it had before
    the two calls or, if it had none, to the pipe of the first call, never
    to the pipe of the second. *)
Theorem RegisterTargetService_twice_panics :
  ∀ (w : World) (s : State) (serviceName p1 p2 : string),
    ∃ s',
      (RegisterTargetService serviceName p1;;
       RegisterTargetService serviceName p2) w s =
        Panic ("service " +:+ serviceName +:+ " already registered") s'
      ∧ map_index (pipeMapping (tr s')) serviceName =
          ((if snd (map_index (pipeMapping (tr s)) serviceName)
            then fst (map_index (pipeMapping (tr s)) serviceName)
            else p1), true).
Proof.
  intros w s serviceName p1 p2.
  unfold mbind, Go_bind, bind. rewrite RegisterTargetService_run.
  destruct (map_index (pipeMapping (tr s)) serviceName) as [v [|]] eqn:Hm; simpl.
  - eexists. split; [reflexivity|]. simpl. exact Hm.
  - rewrite RegisterTargetService_run. simpl.
    rewrite lookup_insert_eq. simpl.
    eexists. split; [reflexivity|]. simpl. rewrite lookup_insert_eq. reflexivity.
Qed.

(** X7. Registrations of distinct names commute: for two different names,
    neither registered yet, both orders return normally and leave the same
    transport. *)
Theorem RegisterTargetService_order_irrelevant :
  ∀ (w : World) (s : State) (s1 p1 s2 p2 : string),
    s1 ≠ s2 →
    snd (map_index (pipeMapping (tr s)) s1) = false →
    snd (map_index (pipeMapping (tr s)) s2) = false →
    ∃ sa sb,
      (RegisterTargetService s1 p1;; RegisterTargetService s2 p2) w s = Done tt sa
      ∧ (RegisterTargetService s2 p2;; RegisterTargetService s1 p1) w s = Done tt sb
      ∧ tr sa = tr sb.
Proof.
  intros w s s1 p1 s2 p2 Hne H1 H2.
  assert (Hfresh : ∀ a b pa, a ≠ b →
    snd (map_index (pipeMapping (tr s)) b) = false →
    snd (map_index (Some (<[a:=pa]> (default ∅ (pipeMapping (tr s))))) b) = false).
  { intros a b pa Hab Hb.
    rewrite map_index_Some, lookup_insert_ne by exact Hab.
    apply map_index_absent in Hb. unfold map_index in Hb.
    destruct (pipeMapping (tr s)) as [g|]; simpl.
    - destruct (g !! b); [discriminate|reflexivity].
    - rewrite lookup_empty. reflexivity. }
  unfold mbind, Go_bind, bind.
  rewrite !RegisterTargetService_run, H1, H2.
  rewrite !RegisterTargetService_run. cbn [tr log pipeMapping with_pipeMapping].
  rewrite (Hfresh s1 s2 p1 Hne H2).
  rewrite (Hfresh s2 s1 p2 (λ E, Hne (eq_sym E)) H1).
  eexists _, _. split; [reflexivity|]. split; [reflexivity|].
  cbn [tr with_pipeMapping DialTimeout RequestTimeout ResponseHeaderTimeout
       pipeMapping default].
  unfold with_pipeMapping. f_equal. f_equal. simpl.
  apply insert_insert_ne. intros E. apply Hne. symmetry. exact E.
Qed.

Lemma RegisterTargetService_order_irrelevant_witness :
  ∃ sa sb,
    (RegisterTargetService "docker" "//./pipe/docker_engine";;
     RegisterTargetService "compose" "//./pipe/compose") happy
      (start zero_Transport) = Done tt sa
    ∧ (RegisterTargetService "compose" "//./pipe/compose";;
       RegisterTargetService "docker" "//./pipe/docker_engine") happy
        (start zero_Transport) = Done tt sb
    ∧ tr sa = tr sb.
Proof.
  apply (RegisterTargetService_order_irrelevant happy (start zero_Transport)
           "docker" "//./pipe/docker_engine" "compose" "//./pipe/compose");
    [discriminate|reflexivity|reflexivity].
Defined.

(** X8. [RoundTrip] reads the registry only at the URL host of the
    request: on two transports with the same timeouts whose registries
    give the same answer for that host (or on any two such transports when
    the URL is nil), the same request in the same world has the same
    result and makes the same calls. *)
Theorem RoundTrip_reads_only_the_host_entry :
  ∀ (req : http.Request) (w : World) (s : State) (m' : gomap),
    (∀ u, http.URL req = Some u →
          map_index m' (url.Host u) =
            map_index (pipeMapping (tr s)) (url.Host u)) →
    let s' := {| tr := with_pipeMapping m' (tr s); log := log s |} in
    returned (RoundTrip req w s') = returned (RoundTrip req w s)
    ∧ log (final (RoundTrip req w s')) = log (final (RoundTrip req w s)).
Proof.
  intros req w s m' Hsame s'.
  destruct (request_paths req (tr s))
    as [HU|[(u & HU & HS)|[(u & HU & HS & HH)|[(u & HU & HS & HH & HM)
       |(u & p & HU & HS & HH & HM)]]]].
  - rewrite !RoundTrip_nil_URL by exact HU. split; reflexivity.
  - rewrite !(RoundTrip_other_scheme req u) by assumption. split; reflexivity.
  - rewrite !(RoundTrip_no_host req u) by assumption. split; reflexivity.
  - rewrite (RoundTrip_unknown req u w s) by assumption.
    rewrite (RoundTrip_unknown req u w s')
      by (try assumption; simpl; rewrite (Hsame u HU); exact HM).
    split; reflexivity.
  - rewrite (RoundTrip_exchange req u p w s) by assumption.
    rewrite (RoundTrip_exchange req u p w s')
      by (try assumption; simpl; rewrite (Hsame u HU); exact HM).
    cbv zeta. subst s'. cbn [tr log with_pipeMapping DialTimeout].
    destruct (w _ (sockets_DialPipe _ _)) as [c|err]; [|split; reflexivity].
    unfold write_deadline, read_deadline.
    cbn [with_pipeMapping RequestTimeout ResponseHeaderTimeout].
    destruct (decide (RequestTimeout (tr s) > 0));
      (destruct (w _ (Request_Write _ _)); [split; reflexivity|]);
      destruct (decide (ResponseHeaderTimeout (tr s) > 0)); split; reflexivity.
Qed.

Lemma RoundTrip_reads_only_the_host_entry_witness :
  returned (RoundTrip docker_req happy
              {| tr := with_pipeMapping
                         (Some (<["compose":="//./pipe/compose"]>
                                  {[ "docker" := "//./pipe/docker_engine" ]}))
                         (docker_Transport 5 3);
                 log := [] |}) =
    returned (RoundTrip docker_req happy (start (docker_Transport 5 3)))
  ∧ log (final (RoundTrip docker_req happy
                  {| tr := with_pipeMapping
                             (Some (<["compose":="//./pipe/compose"]>
                                      {[ "docker" := "//./pipe/docker_engine" ]}))
                             (docker_Transport 5 3);
                     log := [] |})) =
      log (final (RoundTrip docker_req happy (start (docker_Transport 5 3)))).
Proof.
  apply (RoundTrip_reads_only_the_host_entry docker_req happy
           (start (docker_Transport 5 3))
           (Some (<["compose":="//./pipe/compose"]>
                    {[ "docker" := "//./pipe/docker_engine" ]}))).
  intros u [= <-]. reflexivity.
Defined.

(** X9. The dial is not guarded by the sign of [DialTimeout]: every dial
    a [RoundTrip] makes passes [DialTimeout] to [sockets.DialPipe] as it
    is, and a valid request for a registered host is dialed whatever the
    value of [DialTimeout], also zero or negative (the two other timeouts
    are compared with zero first). *)
Theorem RoundTrip_dials_with_DialTimeout_as_is :
  ∀ (req : http.Request) (w : World) (s : State),
    (∀ addr timeout,
       sockets_DialPipe addr timeout ∈ added s (RoundTrip req w s) →
       timeout = DialTimeout (tr s))
    ∧ (∀ u pipeName,
         http.URL req = Some u → url.Scheme u = Scheme → url.Host u ≠ "" →
         map_index (pipeMapping (tr s)) (url.Host u) = (pipeName, true) →
         ∃ post,
           added s (RoundTrip req w s) =
             mutex_Lock :: mutex_Unlock
               :: sockets_DialPipe pipeName (DialTimeout (tr s)) :: post).
Proof.
  intros req w s. split.
  - intros addr timeout Hin.
    destruct (RoundTrip_added_shape req w s)
      as [E|[E|(p & [E|(c & wd & rd & Hwd & Hrd & E)])]].
    + rewrite E in Hin. log_inv Hin.
    + rewrite E in Hin. log_inv Hin.
    + rewrite E in Hin. log_inv Hin. congruence.
    + destruct Hwd as [->|[t ->]]; destruct Hrd as [->|[t' ->]];
        destruct E as [E|E]; rewrite E in Hin; simpl in Hin;
        log_inv Hin; congruence.
  - intros u p HU HS HH HM.
    rewrite (RoundTrip_exchange req u p) by assumption. cbv zeta.
    destruct (w _ (sockets_DialPipe _ _)) as [c|err].
    + destruct (w _ (Request_Write _ _));
        rewrite <- ?app_assoc; rewrite added_Done; simpl; eauto.
    + rewrite added_Done. eauto.
Qed.

Lemma RoundTrip_dials_with_DialTimeout_as_is_witness :
  ∃ post,
    added
      (start {| DialTimeout := -1; RequestTimeout := 0;
                ResponseHeaderTimeout := 0;
                pipeMapping := Some {[ "docker" := "//./pipe/docker_engine" ]} |})
      (RoundTrip docker_req happy
         (start {| DialTimeout := -1; RequestTimeout := 0;
                   ResponseHeaderTimeout := 0;
                   pipeMapping := Some {[ "docker" := "//./pipe/docker_engine" ]} |})) =
      mutex_Lock :: mutex_Unlock
        :: sockets_DialPipe "//./pipe/docker_engine" (-1) :: post.
Proof.
  apply (proj2 (RoundTrip_dials_with_DialTimeout_as_is docker_req happy
           (start {| DialTimeout := -1; RequestTimeout := 0;
                     ResponseHeaderTimeout := 0;
                     pipeMapping := Some {[ "docker" := "//./pipe/docker_engine" ]} |}))
           docker_url "//./pipe/docker_engine");
    [reflexivity|reflexivity|discriminate|reflexivity].
Defined.

(** X10. [RegisterTargetService] does not check its arguments: the empty
    service name is accepted and entered in the registry like any other,
    but no request can ever reach that entry, because [RoundTrip] turns
    away a request with an empty URL host before it looks the host up. *)
Theorem empty_service_name_is_registered_but_unreachable :
  ∀ (w : World) (s : State) (pipeName : string),
    snd (map_index (pipeMapping (tr s)) "") = false →
    ∃ s', RegisterTargetService "" pipeName w s = Done tt s'
          ∧ map_index (pipeMapping (tr s')) "" = (pipeName, true)
          ∧ ∀ req u w',
              http.URL req = Some u → url.Host u = "" →
              added s' (RoundTrip req w' s') = []
              ∧ ∃ e, returned (RoundTrip req w' s') = Some (None, Some e).
Proof.
  intros w s pipeName Hfresh.
  rewrite RegisterTargetService_run, Hfresh.
  eexists. split; [reflexivity|]. split; [apply map_index_insert|].
  intros req u w' HU HH.
  destruct (decide (url.Scheme u = Scheme)) as [HS|HS].
  - rewrite (RoundTrip_no_host req u) by assumption.
    rewrite added_same. eauto.
  - rewrite (RoundTrip_other_scheme req u) by assumption.
    rewrite added_same. eauto.
Qed.

Lemma empty_service_name_is_registered_but_unreachable_witness :
  ∃ s', RegisterTargetService "" "//./pipe/docker_engine" happy
          (start zero_Transport) = Done tt s'
        ∧ map_index (pipeMapping (tr s')) "" = ("//./pipe/docker_engine", true).
Proof.
  destruct (empty_service_name_is_registered_but_unreachable happy
              (start zero_Transport) "//./pipe/docker_engine" eq_refl)
    as (s' & Hrun & Hmap & _).
  exists s'. split; [exact Hrun|exact Hmap].
Defined.

(** X11. [RoundTrip] drops the results of [SetWriteDeadline] and
    [SetReadDeadline]: in two worlds that answer every other call alike,
    it returns the same result after the same calls, so a deadline that
    could not be set fails no request and the exchange goes on without
    it. *)
Theorem RoundTrip_ignores_deadline_errors :
  ∀ (req : http.Request) (w w' : World) (s : State),
    (∀ l c, is_deadline c = false → w' l c = w l c) →
    RoundTrip req w' s = RoundTrip req w s.
Proof.
  intros req w w' s Hsame.
  destruct (request_paths req (tr s))
    as [HU|[(u & HU & HS)|[(u & HU & HS & HH)|[(u & HU & HS & HH & HM)
       |(u & p & HU & HS & HH & HM)]]]].
  - rewrite !RoundTrip_nil_URL by exact HU. reflexivity.
  - rewrite !(RoundTrip_other_scheme req u) by assumption. reflexivity.
  - rewrite !(RoundTrip_no_host req u) by assumption. reflexivity.
  - rewrite !(RoundTrip_unknown req u) by assumption. reflexivity.
  - rewrite !(RoundTrip_exchange req u p) by assumption. cbv zeta.
    rewrite (Hsame _ (sockets_DialPipe _ _) eq_refl).
    destruct (w _ (sockets_DialPipe _ _)) as [c|err]; [|reflexivity].
    assert (Hwd : ∀ l, write_deadline w' (tr s) c l = write_deadline w (tr s) c l).
    { intros l. unfold write_deadline.
      rewrite (Hsame l time_Now eq_refl). reflexivity. }
    assert (Hrd : ∀ l, read_deadline w' (tr s) c l = read_deadline w (tr s) c l).
    { intros l. unfold read_deadline.
      rewrite (Hsame l time_Now eq_refl). reflexivity. }
    rewrite !Hwd. rewrite (Hsame _ (Request_Write _ _) eq_refl).
    destruct (w _ (Request_Write _ _)); [reflexivity|].
    rewrite !Hrd. rewrite (Hsame _ (http_ReadResponse _ _) eq_refl).
    reflexivity.
Qed.

Lemma RoundTrip_ignores_deadline_errors_witness :
  RoundTrip docker_req (deadlines_fail closed_pipe happy)
    (start (docker_Transport 5 3)) =
    RoundTrip docker_req happy (start (docker_Transport 5 3)).
Proof.
  apply (RoundTrip_ignores_deadline_errors docker_req happy
           (deadlines_fail closed_pipe happy) (start (docker_Transport 5 3))).
  intros l c Hc. destruct c; try discriminate Hc; reflexivity.
Defined.

(** The number of dials of a [RoundTrip] whose host is registered. *)
Lemma RoundTrip_one_dial req u pipeName w s :
  http.URL req = Some u → url.Scheme u = Scheme → url.Host u ≠ "" →
  map_index (pipeMapping (tr s)) (url.Host u) = (pipeName, true) →
  ∃ r a, RoundTrip req w s = Done r {| tr := tr s; log := log s ++ a |}
         ∧ length (List.filter is_dial a) = 1%nat.
Proof.
  intros HU HS HH HM.
  rewrite (RoundTrip_exchange req u pipeName) by assumption. cbv zeta.
  destruct (w _ (sockets_DialPipe _ _)) as [c|err].
  - unfold write_deadline, read_deadline.
    destruct (w _ (Request_Write _ _)); repeat case_decide;
      rewrite <- ?app_assoc;
      (eexists _, _; split; [reflexivity|reflexivity]).
  - eexists _, _. split; [reflexivity|reflexivity].
Qed.

(** X12. No connection is kept from one [RoundTrip] to the next: two
    calls in a row for registered hosts dial twice, once each, also when
    both are for the same host. *)
Theorem RoundTrip_dials_anew_each_time :
  ∀ (req1 req2 : http.Request) (u1 u2 : url.URL) (p1 p2 : string)
    (w : World) (s : State),
    http.URL req1 = Some u1 → url.Scheme u1 = Scheme → url.Host u1 ≠ "" →
    map_index (pipeMapping (tr s)) (url.Host u1) = (p1, true) →
    http.URL req2 = Some u2 → url.Scheme u2 = Scheme → url.Host u2 ≠ "" →
    map_index (pipeMapping (tr s)) (url.Host u2) = (p2, true) →
    ∃ r s', (RoundTrip req1;; RoundTrip req2) w s = Done r s'
            ∧ List.filter is_dial (added s ((RoundTrip req1;; RoundTrip req2) w s)) =
                [sockets_DialPipe p1 (DialTimeout (tr s));
                 sockets_DialPipe p2 (DialTimeout (tr s))].
Proof.
  intros req1 req2 u1 u2 p1 p2 w s HU1 HS1 HH1 HM1 HU2 HS2 HH2 HM2.
  assert (Hone : ∀ req u p s0,
    http.URL req = Some u → url.Scheme u = Scheme → url.Host u ≠ "" →
    map_index (pipeMapping (tr s0)) (url.Host u) = (p, true) →
    ∃ r a, RoundTrip req w s0 = Done r {| tr := tr s0; log := log s0 ++ a |}
           ∧ List.filter is_dial a = [sockets_DialPipe p (DialTimeout (tr s0))]).
  { intros req u p s0 HU HS HH HM.
    rewrite (RoundTrip_exchange req u p) by assumption. cbv zeta.
    destruct (w _ (sockets_DialPipe _ _)) as [c|err].
    - unfold write_deadline, read_deadline.
      destruct (w _ (Request_Write _ _)); repeat case_decide;
        rewrite <- ?app_assoc;
        (eexists _, _; split; [reflexivity|reflexivity]).
    - eexists _, _. split; [reflexivity|reflexivity]. }
  destruct (Hone req1 u1 p1 s HU1 HS1 HH1 HM1) as (r1 & a1 & E1 & D1).
  destruct (Hone req2 u2 p2 {| tr := tr s; log := log s ++ a1 |}
              HU2 HS2 HH2 HM2) as (r2 & a2 & E2 & D2).
  unfold mbind, Go_bind, bind. rewrite E1, E2. cbn [tr log] in *.
  rewrite <- app_assoc. rewrite added_Done.
  eexists _, _. split; [reflexivity|].
  rewrite List.filter_app, D1, D2. reflexivity.
Qed.

Lemma RoundTrip_dials_anew_each_time_witness :
  ∃ r s', (RoundTrip docker_req;; RoundTrip docker_req) happy
            (start (docker_Transport 5 3)) = Done r s'
          ∧ List.filter is_dial
              (added (start (docker_Transport 5 3))
                 ((RoundTrip docker_req;; RoundTrip docker_req) happy
                    (start (docker_Transport 5 3)))) =
              [sockets_DialPipe "//./pipe/docker_engine" 0;
               sockets_DialPipe "//./pipe/docker_engine" 0].
Proof.
  apply (RoundTrip_dials_anew_each_time docker_req docker_req docker_url
           docker_url "//./pipe/docker_engine" "//./pipe/docker_engine"
           happy (start (docker_Transport 5 3)));
    first [reflexivity|discriminate].
Defined.

(** X13. The lazy initialisation of the registry cannot be observed: a
    transport with the nil map and the same transport with an empty map
    give the same outcome for every [RegisterTargetService], and the same
    result and calls for every [RoundTrip]. *)
Theorem nil_map_behaves_as_empty_map :
  ∀ (w : World) (s : State),
    pipeMapping (tr s) = None →
    let s0 := {| tr := with_pipeMapping (Some ∅) (tr s); log := log s |} in
    (∀ serviceName pipeName,
       RegisterTargetService serviceName pipeName w s =
         RegisterTargetService serviceName pipeName w s0)
    ∧ (∀ req,
         returned (RoundTrip req w s) = returned (RoundTrip req w s0)
         ∧ log (final (RoundTrip req w s)) = log (final (RoundTrip req w s0))).
Proof.
  intros w s Hnil s0. split.
  - intros serviceName pipeName. rewrite !RegisterTargetService_run.
    subst s0. cbn [tr log pipeMapping with_pipeMapping]. rewrite Hnil.
    simpl. rewrite lookup_empty. reflexivity.
  - intros req.
    assert (Habsent : ∀ k, snd (map_index (pipeMapping (tr s)) k) = false)
      by (intros k; rewrite Hnil; reflexivity).
    assert (Habsent0 : ∀ k, snd (map_index (pipeMapping (tr s0)) k) = false)
      by (intros k; subst s0; simpl; rewrite lookup_empty; reflexivity).
    destruct (request_paths req (tr s))
      as [HU|[(u & HU & HS)|[(u & HU & HS & HH)|[(u & HU & HS & HH & HM)
         |(u & p & HU & HS & HH & HM)]]]].
    + rewrite !RoundTrip_nil_URL by exact HU. split; reflexivity.
    + rewrite !(RoundTrip_other_scheme req u) by assumption. split; reflexivity.
    + rewrite !(RoundTrip_no_host req u) by assumption. split; reflexivity.
    + rewrite !(RoundTrip_unknown req u) by (try assumption; apply Habsent0).
      split; reflexivity.
    + specialize (Habsent (url.Host u)). rewrite HM in Habsent. discriminate.
Qed.

Lemma nil_map_behaves_as_empty_map_witness :
  RegisterTargetService "docker" "//./pipe/docker_engine" happy
    (start zero_Transport) =
    RegisterTargetService "docker" "//./pipe/docker_engine" happy
      {| tr := with_pipeMapping (Some ∅) zero_Transport; log := [] |}.
Proof.
  apply (proj1 (nil_map_behaves_as_empty_map happy (start zero_Transport)
                  eq_refl)).
Defined.

(** X14. The error text tells which check turned a request away: when a
    [RoundTrip] ends without a dial, its error reads
    "http+npipe: nil Request.URL" exactly when the URL is nil,
    "unsupported protocol scheme: ..." exactly when the scheme is not
    "http+npipe", "http+npipe: no Host in request URL" exactly when the
    scheme is right and the URL host empty, and "unknown service: ..."
    exactly when the request is valid and its host not registered. *)
Theorem RoundTrip_error_text_names_the_check :
  ∀ (req : http.Request) (w : World) (s : State),
    List.filter is_dial (added s (RoundTrip req w s)) = [] →
    ∃ e, returned (RoundTrip req w s) = Some (None, Some e)
      ∧ (Error e = "http+npipe: nil Request.URL" ↔ http.URL req = None)
      ∧ ((∃ x, Error e = "unsupported protocol scheme: " +:+ x)
         ↔ ∃ u, http.URL req = Some u ∧ url.Scheme u ≠ Scheme)
      ∧ (Error e = "http+npipe: no Host in request URL"
         ↔ ∃ u, http.URL req = Some u ∧ url.Scheme u = Scheme
                ∧ url.Host u = "")
      ∧ ((∃ h, Error e = "unknown service: " +:+ h)
         ↔ ∃ u, http.URL req = Some u ∧ url.Scheme u = Scheme
                ∧ url.Host u ≠ ""
                ∧ snd (map_index (pipeMapping (tr s)) (url.Host u)) = false).
Proof.
  intros req w s Hnodial.
  destruct (request_paths req (tr s))
    as [HU|[(u & HU & HS)|[(u & HU & HS & HH)|[(u & HU & HS & HH & HM)
       |(u & p & HU & HS & HH & HM)]]]].
  - rewrite RoundTrip_nil_URL by exact HU. eexists. split; [reflexivity|].
    simpl. repeat split; try (intros; assumption); try reflexivity.
    all: try (intros (x & Hx); discriminate Hx).
    all: try (intros (u & Hu & _); congruence).
    all: try (intros Hx; discriminate Hx).
  - rewrite (RoundTrip_other_scheme req u) by assumption.
    eexists. split; [reflexivity|]. simpl. repeat split.
    all: try (intros Hx; discriminate Hx).
    all: try (intros Hx; congruence).
    all: try (intros (x & Hx); discriminate Hx).
    all: try (intros (u' & Hu & Hs & _); congruence).
    all: eauto.
  - rewrite (RoundTrip_no_host req u) by assumption.
    eexists. split; [reflexivity|]. simpl. repeat split.
    all: try (intros Hx; discriminate Hx).
    all: try (intros Hx; congruence).
    all: try (intros (x & Hx); discriminate Hx).
    all: try (intros (u' & Hu & Hs & Hh & _); congruence).
    all: try (intros (u' & Hu & Hs); congruence).
    all: eauto.
  - rewrite (RoundTrip_unknown req u) by assumption.
    eexists. split; [reflexivity|]. simpl. repeat split.
    all: try (intros Hx; discriminate Hx).
    all: try (intros Hx; congruence).
    all: try (intros (x & Hx); discriminate Hx).
    all: try (intros (u' & Hu & Hs & Hh); congruence).
    all: try (intros (u' & Hu & Hs); congruence).
    all: eauto 8.
  - exfalso. revert Hnodial.
    destruct (RoundTrip_one_dial req u p w s HU HS HH HM) as (r & a & E & D).
    rewrite E, added_Done. intros Hn. rewrite Hn in D. discriminate D.
Qed.

Lemma RoundTrip_error_text_names_the_check_witness :
  ∃ e, returned (RoundTrip docker_req happy (start compose_Transport)) =
         Some (None, Some e)
       ∧ ∃ h, Error e = "unknown service: " +:+ h.
Proof.
  destruct (RoundTrip_error_text_names_the_check docker_req happy
              (start compose_Transport) eq_refl)
    as (e & Hret & _ & _ & _ & Hunknown).
  exists e. split; [exact Hret|].
  apply (proj2 Hunknown). exists docker_url.
  split; [reflexivity|]. split; [reflexivity|].
  split; [discriminate|reflexivity].
Defined.
